(** * enumerate.hpp: iterating over the items of an [enum]

    A shallow embedding of the three class templates of [enumerate.hpp]
    ([EnumIterBase], [EnumIter], [ReverseEnumIter]) and of the range
    adapter [Enumerate], followed by the properties of the forward and the
    reverse traversal.

    An item of an [enum] is represented by its underlying integer, a [Z]
    within the bounds of the underlying integral type; the conversion to
    that type is written out, and the steps whose arithmetic C++ leaves
    undefined are told apart. *)

From Stdlib Require Import String.
From Stdlib Require Import ZArith List Bool Lia Sorted.
Import ListNotations.

Local Open Scope Z_scope.

(* ================================================================== *)
(** ** The integral type underlying an [enum] *)

(** [std::underlying_type<Enum>::type]: a signed or unsigned integer type
    of a given width. *)
Record integral_type : Type := IntegralType {
  is_signed : bool;
  bits : positive
}.

Definition modulus (t : integral_type) : Z := 2 ^ Z.pos (bits t).

Definition min_value (t : integral_type) : Z :=
  if is_signed t then - 2 ^ (Z.pos (bits t) - 1) else 0.

Definition max_value (t : integral_type) : Z :=
  if is_signed t then 2 ^ (Z.pos (bits t) - 1) - 1 else 2 ^ Z.pos (bits t) - 1.

Definition in_range (t : integral_type) (z : Z) : Prop :=
  min_value t <= z <= max_value t.

Definition in_rangeb (t : integral_type) (z : Z) : bool :=
  (min_value t <=? z) && (z <=? max_value t).

(** [bool], the one unsigned type of a single bit. *)
Definition is_bool (t : integral_type) : bool :=
  negb (is_signed t) && (bits t =? 1)%positive.

(** Conversion of the mathematical result [z] of [unwrap() + 1] or
    [unwrap() - 1] to the integral type [t], as it happens when the
    parameter of [wrap] is initialised.  A value that fits is unchanged.
    Converted to [bool], every value other than zero is [true].  For the
    other unsigned types the result is reduced modulo [2 ^ bits]; this is
    the arithmetic of the type itself or, for a type narrower than [int],
    the conversion of the promoted [int] result back to [t], and the latter
    is also what happens for a signed type narrower than [int].  For a
    signed type of the rank of [int] or above the sum is computed in the
    type itself and C++ leaves its overflow undefined: [overflows] below
    tells where that happens, the checked loops report it, and the value
    given here for such a step is the two's-complement one. *)
Definition to_integral (t : integral_type) (z : Z) : Z :=
  if is_bool t then (if z =? 0 then 0 else 1)
  else (z - min_value t) mod modulus t + min_value t.

(** Width of [int]. *)
Definition int_bits : positive := 32.

(** The signed types of the rank of [int] or above: their arithmetic is
    not promoted, and its overflow is undefined. *)
Definition overflow_is_undefined (t : integral_type) : bool :=
  is_signed t && (int_bits <=? bits t)%positive.

(** The step that computes [z] in the type [t] has undefined behaviour. *)
Definition overflows (t : integral_type) (z : Z) : bool :=
  overflow_is_undefined t && negb (in_rangeb t z).

(** The types in which every step is defined and reduces its result modulo
    [2 ^ bits]. *)
Definition converts_modulo (t : integral_type) : bool :=
  negb (is_bool t) && negb (overflow_is_undefined t).

(** Some of the usual underlying types. *)
Definition uint8_t : integral_type := IntegralType false 8.
Definition int8_t : integral_type := IntegralType true 8.
Definition int_t : integral_type := IntegralType true 32.
Definition unsigned_t : integral_type := IntegralType false 32.
Definition bool_t : integral_type := IntegralType false 1.

(* ================================================================== *)
(** ** [enum] declarations following the protocol *)

(** What [enumerate.hpp] reads of an [enum]: its underlying type and the
    two items [BEGIN] and [END].  Enumerators are representable in the
    underlying type, or the declaration does not compile. *)
Record Enum : Type := EnumDecl {
  underlying_type : integral_type;
  BEGIN : Z;
  END : Z;
  BEGIN_fits : in_rangeb underlying_type BEGIN = true;
  END_fits : in_rangeb underlying_type END = true
}.

(** [enum class Fruit { BEGIN, Apple = BEGIN, Orange, Pear, END };] *)
Definition Fruit : Enum := EnumDecl int_t 0 3 eq_refl eq_refl.

(* ================================================================== *)
(** ** Result of a member function that mutates its object *)

(** A member function that assigns to [m_inner] and returns a value is a
    function from the object before the call to the object after the call
    and the value returned. *)
Record call (Obj Ret : Type) : Type := Call {
  this_after : Obj;
  returned : Ret
}.
Arguments Call {Obj Ret} _ _.
Arguments this_after {Obj Ret} _.
Arguments returned {Obj Ret} _.

(* ================================================================== *)
(** ** [EnumIterBase<Enum>] *)

(** The wrapped [enum] item [m_inner] is the only data member. *)
Record EnumIterBase (E : Enum) : Type := MkEnumIterBase {
  m_inner : Z
}.
Arguments MkEnumIterBase {E} _.
Arguments m_inner {E} _.

(** [constexpr value_type operator *() const] *)
Definition base_deref {E} (it : EnumIterBase E) : Z := m_inner it.

(** [constexpr bool operator ==(EnumIterBase rhs) const] *)
Definition base_eq {E} (it rhs : EnumIterBase E) : bool :=
  m_inner it =? m_inner rhs.

(** [constexpr bool operator !=(EnumIterBase rhs) const] *)
Definition base_ne {E} (it rhs : EnumIterBase E) : bool :=
  negb (m_inner it =? m_inner rhs).

(** [constexpr integral_type unwrap() const] *)
Definition unwrap {E} (it : EnumIterBase E) : Z := m_inner it.

(** [void wrap(integral_type i)]: the argument is converted to
    [integral_type] when the parameter is initialised, then stored in
    place of the item wrapped so far. *)
Definition wrap {E} (it : EnumIterBase E) (i : Z) : EnumIterBase E :=
  MkEnumIterBase (to_integral (underlying_type E) i).

(* ================================================================== *)
(** ** [EnumIter<Enum>], the forwards iterator *)

Record EnumIter (E : Enum) : Type := MkEnumIter {
  iter_base :> EnumIterBase E
}.
Arguments MkEnumIter {E} _.
Arguments iter_base {E} _.

(** The inherited constructor, [EnumIter{inner}]. *)
Definition EnumIter_of (E : Enum) (inner : Z) : EnumIter E :=
  MkEnumIter (MkEnumIterBase inner).

(** [EnumIter operator ++()] *)
Definition EnumIter_incr {E} (it : EnumIter E)
  : call (EnumIter E) (EnumIter E) :=
  let this' := MkEnumIter (wrap it (unwrap it + 1)) in
  Call this' this'.

(** [EnumIter operator --()] *)
Definition EnumIter_decr {E} (it : EnumIter E)
  : call (EnumIter E) (EnumIter E) :=
  let this' := MkEnumIter (wrap it (unwrap it - 1)) in
  Call this' this'.

(* ================================================================== *)
(** ** [ReverseEnumIter<Enum>], the backwards iterator *)

Record ReverseEnumIter (E : Enum) : Type := MkReverseEnumIter {
  riter_base :> EnumIterBase E
}.
Arguments MkReverseEnumIter {E} _.
Arguments riter_base {E} _.

(** The inherited constructor, [ReverseEnumIter{inner}]. *)
Definition ReverseEnumIter_of (E : Enum) (inner : Z) : ReverseEnumIter E :=
  MkReverseEnumIter (MkEnumIterBase inner).

(** [ReverseEnumIter operator ++()] *)
Definition ReverseEnumIter_incr {E} (it : ReverseEnumIter E)
  : call (ReverseEnumIter E) (ReverseEnumIter E) :=
  let this' := MkReverseEnumIter (wrap it (unwrap it - 1)) in
  Call this' this'.

(** [ReverseEnumIter operator --()] *)
Definition ReverseEnumIter_decr {E} (it : ReverseEnumIter E)
  : call (ReverseEnumIter E) (ReverseEnumIter E) :=
  let this' := MkReverseEnumIter (wrap it (unwrap it + 1)) in
  Call this' this'.

(* ================================================================== *)
(** ** [Enumerate<Enum>], the range *)

(** [static constexpr value_type begin_value = value_type::BEGIN;] *)
Definition begin_value (E : Enum) : Z := BEGIN E.

(** [static constexpr value_type end_value = value_type::END;] *)
Definition end_value (E : Enum) : Z := END E.

(** The struct has no data member.  Its one obligation is
    [static_assert(begin_value <= end_value)]: an object of type
    [Enumerate<Enum>] exists only where the assertion holds. *)
Record Enumerate (E : Enum) : Type := MkEnumerate {
  static_assert_le : (begin_value E <=? end_value E) = true
}.
Arguments MkEnumerate {E} _.

(** Instantiating the template: the compiler evaluates the assertion and
    rejects the program when it is false. *)
Definition instantiate (E : Enum) : option (Enumerate E) :=
  match bool_dec (begin_value E <=? end_value E) true with
  | left holds => Some (MkEnumerate holds)
  | right _ => None
  end.

(** [constexpr iterator begin() const] *)
Definition Enumerate_begin {E} (range : Enumerate E) : EnumIter E :=
  EnumIter_of E (begin_value E).

(** [constexpr iterator end() const] *)
Definition Enumerate_end {E} (range : Enumerate E) : EnumIter E :=
  EnumIter_of E (end_value E).

(** [constexpr reverse_iterator rbegin() const]:
    [return ++reverse_iterator{end_value};] *)
Definition Enumerate_rbegin {E} (range : Enumerate E) : ReverseEnumIter E :=
  returned (ReverseEnumIter_incr (ReverseEnumIter_of E (end_value E))).

(** [constexpr reverse_iterator rend() const]:
    [return ++reverse_iterator{begin_value};] *)
Definition Enumerate_rend {E} (range : Enumerate E) : ReverseEnumIter E :=
  returned (ReverseEnumIter_incr (ReverseEnumIter_of E (begin_value E))).

(* ================================================================== *)
(** ** The loop over a range *)

(** What a loop asks of an iterator: [*it], [it != last] and [++it]. *)
Class Iterator (I : Type) : Type := {
  deref : I -> Z;
  not_equal : I -> I -> bool;
  pre_increment : I -> call I I
}.

#[export] Instance EnumIter_Iterator (E : Enum) : Iterator (EnumIter E) := {
  deref it := base_deref it;
  not_equal it rhs := base_ne it rhs;
  pre_increment it := EnumIter_incr it
}.

#[export] Instance ReverseEnumIter_Iterator (E : Enum)
  : Iterator (ReverseEnumIter E) := {
  deref it := base_deref it;
  not_equal it rhs := base_ne it rhs;
  pre_increment it := ReverseEnumIter_incr it
}.

(** [for (; it != last; ++it) { visit( *it ); }], the loop of the usage
    example and the expansion of the range-based [for].  The result is the
    list of the items visited, or [None] when the loop is still running
    after [fuel] iterations. *)
Fixpoint for_loop {I} `{Iterator I} (fuel : nat) (it last : I)
  : option (list Z) :=
  if not_equal it last then
    match fuel with
    | O => None
    | S fuel' =>
        match for_loop fuel' (this_after (pre_increment it)) last with
        | Some visited => Some (deref it :: visited)
        | None => None
        end
    end
  else Some [].

(** [for (const auto item : Enumerate<Enum>{})] *)
Definition forward_traversal {E} (range : Enumerate E) (fuel : nat)
  : option (list Z) :=
  for_loop fuel (Enumerate_begin range) (Enumerate_end range).

(** [for (auto it = range.rbegin(); it != range.rend(); ++it)] *)
Definition reverse_traversal {E} (range : Enumerate E) (fuel : nat)
  : option (list Z) :=
  for_loop fuel (Enumerate_rbegin range) (Enumerate_rend range).

(** [n] applications of [++it] to a forwards iterator. *)
Definition advance {E} (n : nat) (it : EnumIter E) : EnumIter E :=
  Nat.iter n (fun it' => this_after (EnumIter_incr it')) it.

(* ================================================================== *)
(** ** Vocabulary of the statements *)

(** The integers [lo], [lo + 1], ..., [lo + n - 1]. *)
Fixpoint interval (lo : Z) (n : nat) : list Z :=
  match n with
  | O => []
  | S n' => lo :: interval (lo + 1) n'
  end.

(** Number of items of the range, [END - BEGIN]. *)
Definition range_size (E : Enum) : nat := Z.to_nat (END E - BEGIN E).

(** The ranges used as examples. *)
Definition Fruit_range : Enumerate Fruit := @MkEnumerate Fruit eq_refl.

(** [enum class Colour : unsigned char { BEGIN, Red = BEGIN, Green, Blue, END };] *)
Definition Colour : Enum := EnumDecl uint8_t 0 3 eq_refl eq_refl.
Definition Colour_range : Enumerate Colour := @MkEnumerate Colour eq_refl.


(** [enum class Single { BEGIN, Only = BEGIN, END };] *)
Definition Single : Enum := EnumDecl int_t 0 1 eq_refl eq_refl.
Definition Single_range : Enumerate Single := @MkEnumerate Single eq_refl.

(** [enum class Octet : unsigned char { BEGIN = 0, END = 255 };] *)
Definition Octet : Enum := EnumDecl uint8_t 0 255 eq_refl eq_refl.
Definition Octet_range : Enumerate Octet := @MkEnumerate Octet eq_refl.

(** [enum class Backwards { END, BEGIN = 3 };], which breaks the protocol. *)
Definition Backwards : Enum := EnumDecl int_t 3 0 eq_refl eq_refl.

(* ================================================================== *)
(** ** The usage example *)

(** [std::out_of_range], with the argument of its constructor. *)
Inductive exception : Type :=
| out_of_range (what_arg : string).

(** A call that returns a value or leaves by an exception. *)
Inductive outcome (A : Type) : Type :=
| Returns (value : A)
| Throws (e : exception).
Arguments Returns {A} _.
Arguments Throws {A} _.

(** The items of [Fruit] between [BEGIN] and [END]:
    [Apple = BEGIN, Orange, Pear]. *)
Definition Apple : Z := BEGIN Fruit.
Definition Orange : Z := Apple + 1.
Definition Pear : Z := Orange + 1.

(** [const char* name(const Fruit f)]: a [switch] over the three items
    whose [default] throws. *)
Definition name (f : Z) : outcome string :=
  if f =? Apple then Returns "Apple"%string
  else if f =? Orange then Returns "Orange"%string
  else if f =? Pear then Returns "Pear"%string
  else Throws (out_of_range "Fruit"%string).

(** The loop with a body.  The body reads the item and the state of the
    program and gives the state after it, with the exception that left it,
    if any; an exception ends the loop.  [None] when the loop is still
    running after [fuel] iterations. *)
Fixpoint for_each {I} `{Iterator I} {State : Type} (fuel : nat) (it last : I)
  (body : Z -> State -> State * option exception) (s : State)
  : option (State * option exception) :=
  if not_equal it last then
    match fuel with
    | O => None
    | S fuel' =>
        match body (deref it) s with
        | (s', Some e) => Some (s', Some e)
        | (s', None) =>
            for_each fuel' (this_after (pre_increment it)) last body s'
        end
    end
  else Some (s, None).

(** [std::cout << name(item) << std::endl;] on the lines written so far:
    [name] is evaluated first, so nothing is written when it throws. *)
Definition print_name (item : Z) (out : list string)
  : list string * option exception :=
  match name item with
  | Returns text => (out ++ [text], None)
  | Throws e => (out, Some e)
  end.

(** [int main()]: the range-based [for] over the range of [Fruit], then the
    loop from [rbegin()] to [rend()].  Both branches of the [#ifdef] are
    these two loops.  The result is the lines written and the way [main]
    ends. *)
Definition main (fuel : nat) : option (list string * outcome Z) :=
  match for_each fuel (Enumerate_begin Fruit_range)
          (Enumerate_end Fruit_range) print_name [] with
  | None => None
  | Some (out, Some e) => Some (out, Throws e)
  | Some (out, None) =>
      match for_each fuel (Enumerate_rbegin Fruit_range)
              (Enumerate_rend Fruit_range) print_name out with
      | None => None
      | Some (out', Some e) => Some (out', Throws e)
      | Some (out', None) => Some (out', Returns 0)
      end
  end.

(** The body applied to the items of a list in turn, up to the first
    exception. *)
Fixpoint run_body {State : Type} (body : Z -> State -> State * option exception)
  (items : list Z) (s : State) : State * option exception :=
  match items with
  | [] => (s, None)
  | item :: rest =>
      match body item s with
      | (s', Some e) => (s', Some e)
      | (s', None) => run_body body rest s'
      end
  end.

(* ================================================================== *)
(** ** The loops with the undefined steps told apart *)

(** How a run of a loop is going after a number of iterations. *)
Inductive behaviour (A : Type) : Type :=
| Ends (result : A)
| StillRunning
| Undefined.
Arguments Ends {A} _.
Arguments StillRunning {A}.
Arguments Undefined {A}.


(** [++it] on a backwards iterator computes [unwrap() - 1]. *)
Definition ReverseEnumIter_incr_overflows {E} (it : ReverseEnumIter E)
  : bool :=
  overflows (underlying_type E) (unwrap it - 1).

(** The loop [for (; it != last; ++it) { visit( *it ); }] again, where a
    [++it] whose arithmetic overflows in a signed type of the rank of
    [int] or above makes the run undefined. *)
Fixpoint for_loop_checked {I} `{Iterator I} (step_overflows : I -> bool)
  (fuel : nat) (it last : I) : behaviour (list Z) :=
  if not_equal it last then
    match fuel with
    | O => StillRunning
    | S fuel' =>
        if step_overflows it then Undefined
        else
          match for_loop_checked step_overflows fuel'
                  (this_after (pre_increment it)) last with
          | Ends visited => Ends (deref it :: visited)
          | StillRunning => StillRunning
          | Undefined => Undefined
          end
    end
  else Ends [].


(** The reverse loop: [rbegin()] and [rend()] each apply [++] once, to
    [END] and to [BEGIN], before the first comparison. *)
Definition reverse_traversal_checked {E} (range : Enumerate E) (fuel : nat)
  : behaviour (list Z) :=
  if ReverseEnumIter_incr_overflows (ReverseEnumIter_of E (end_value E))
     || ReverseEnumIter_incr_overflows (ReverseEnumIter_of E (begin_value E))
  then Undefined
  else for_loop_checked ReverseEnumIter_incr_overflows fuel
         (Enumerate_rbegin range) (Enumerate_rend range).


(** [enum class Flag : bool { BEGIN = false, Off = BEGIN, END = true };] *)
Definition Flag : Enum := EnumDecl bool_t 0 1 eq_refl eq_refl.
Definition Flag_range : Enumerate Flag := @MkEnumerate Flag eq_refl.

(* ================================================================== *)
(** ** Concrete runs *)

Example Fruit_forward : forward_traversal Fruit_range 3 = Some [0; 1; 2].
Proof. reflexivity. Qed.

Example Fruit_reverse : reverse_traversal Fruit_range 3 = Some [2; 1; 0].
Proof. reflexivity. Qed.

Example Colour_reverse : reverse_traversal Colour_range 3 = Some [2; 1; 0].
Proof. reflexivity. Qed.

Example Single_both :
  forward_traversal Single_range 1 = Some [0]
  /\ reverse_traversal Single_range 1 = Some [0].
Proof. split; reflexivity. Qed.

Example Fruit_end_is_three : base_deref (Enumerate_end Fruit_range) = 3.
Proof. reflexivity. Qed.

Example Backwards_rejected : instantiate Backwards = None.
Proof. reflexivity. Qed.

Example Fruit_accepted : instantiate Fruit <> None.
Proof. discriminate. Qed.

Example Flag_increment_saturates :
  unwrap (this_after (EnumIter_incr (EnumIter_of Flag 1))) = 1
  /\ unwrap (this_after (EnumIter_decr (EnumIter_of Flag 0))) = 1.
Proof. split; reflexivity. Qed.

Example Flag_both :
  forward_traversal Flag_range 1 = Some [0]
  /\ reverse_traversal Flag_range 1 = Some [0]
  /\ reverse_traversal_checked Flag_range 1 = Ends [0].
Proof. repeat split; reflexivity. Qed.

Example Fruit_reverse_checked :
  reverse_traversal_checked Fruit_range 3 = Ends [2; 1; 0].
Proof. reflexivity. Qed.

Example Fruit_out_of_fuel : forward_traversal Fruit_range 2 = None.
Proof. reflexivity. Qed.

(* ================================================================== *)
(** ** Arithmetic of the underlying type *)

Section Integral.

Variable t : integral_type.

Lemma modulus_pos : 0 < modulus t.
Proof. unfold modulus. apply Z.pow_pos_nonneg; lia. Qed.

Lemma modulus_halves : modulus t = 2 * 2 ^ (Z.pos (bits t) - 1).
Proof.
  unfold modulus. rewrite <- Z.pow_succ_r by lia.
  f_equal. lia.
Qed.

Lemma range_width : max_value t - min_value t = modulus t - 1.
Proof.
  pose proof modulus_halves as Hm.
  unfold max_value, min_value. destruct (is_signed t).
  - lia.
  - unfold modulus. lia.
Qed.

Lemma min_le_max : min_value t <= max_value t.
Proof. pose proof range_width. pose proof modulus_pos. lia. Qed.

Lemma in_rangeb_spec z : in_rangeb t z = true <-> in_range t z.
Proof.
  unfold in_rangeb, in_range.
  rewrite andb_true_iff, !Z.leb_le. tauto.
Qed.

Lemma is_bool_range : is_bool t = true -> min_value t = 0 /\ max_value t = 1.
Proof.
  unfold is_bool, min_value, max_value. destruct t as [signed width]. simpl.
  destruct signed; simpl; [discriminate|].
  destruct width; try discriminate. split; reflexivity.
Qed.

Lemma to_integral_modulo z :
  is_bool t = false ->
  to_integral t z = (z - min_value t) mod modulus t + min_value t.
Proof. intros Hb. unfold to_integral. rewrite Hb. reflexivity. Qed.

Lemma to_integral_in_range z : in_range t (to_integral t z).
Proof.
  unfold in_range, to_integral. destruct (is_bool t) eqn:Hb.
  - destruct (is_bool_range Hb) as [-> ->]. destruct (z =? 0); lia.
  - pose proof (Z.mod_pos_bound (z - min_value t) (modulus t) modulus_pos).
    pose proof range_width. lia.
Qed.

Lemma to_integral_fits z : in_range t z -> to_integral t z = z.
Proof.
  unfold in_range, to_integral. intros Hz. destruct (is_bool t) eqn:Hb.
  - destruct (is_bool_range Hb) as [Hmin Hmax]. rewrite Hmin, Hmax in Hz.
    destruct (Z.eqb_spec z 0); lia.
  - pose proof range_width.
    rewrite Z.mod_small by lia. lia.
Qed.

Lemma to_integral_below_min : to_integral t (min_value t - 1) = max_value t.
Proof.
  unfold to_integral. destruct (is_bool t) eqn:Hb.
  - destruct (is_bool_range Hb) as [-> ->]. reflexivity.
  - pose proof range_width. pose proof modulus_pos.
    replace (min_value t - 1 - min_value t) with (-1) by lia.
    rewrite <- (Z.mod_unique (-1) (modulus t) (-1) (modulus t - 1)); lia.
Qed.

Lemma to_integral_above_max :
  is_bool t = false -> to_integral t (max_value t + 1) = min_value t.
Proof.
  intros Hb. rewrite to_integral_modulo by exact Hb. pose proof range_width.
  replace (max_value t + 1 - min_value t) with (modulus t) by lia.
  rewrite Z.mod_same by (pose proof modulus_pos; lia). lia.
Qed.

(** One step down from a value of the type either fits or leaves from the
    minimum and arrives at the maximum. *)
Lemma to_integral_pred z :
  in_range t z ->
  (min_value t < z /\ to_integral t (z - 1) = z - 1)
  \/ (z = min_value t /\ to_integral t (z - 1) = max_value t).
Proof.
  intros Hz. unfold in_range in Hz.
  destruct (Z.eq_dec z (min_value t)) as [->|Hne].
  - right. split; [reflexivity | apply to_integral_below_min].
  - left. split; [lia|]. apply to_integral_fits. unfold in_range. lia.
Qed.

End Integral.

Lemma BEGIN_in_range (E : Enum) : in_range (underlying_type E) (BEGIN E).
Proof. apply in_rangeb_spec, BEGIN_fits. Qed.

Lemma END_in_range (E : Enum) : in_range (underlying_type E) (END E).
Proof. apply in_rangeb_spec, END_fits. Qed.

Lemma BEGIN_le_END {E} (range : Enumerate E) : BEGIN E <= END E.
Proof. destruct range as [H]. apply Z.leb_le in H. exact H. Qed.

(* ================================================================== *)
(** ** The list [interval lo n] *)


Lemma interval_In lo n v :
  In v (interval lo n) <-> lo <= v < lo + Z.of_nat n.
Proof.
  revert lo. induction n as [|n IH]; intros lo; simpl.
  - lia.
  - rewrite IH. lia.
Qed.

Lemma interval_snoc lo n :
  interval lo (S n) = interval lo n ++ [lo + Z.of_nat n].
Proof.
  revert lo. induction n as [|n IH]; intros lo.
  - simpl. f_equal. lia.
  - change (interval lo (S (S n))) with (lo :: interval (lo + 1) (S n)).
    rewrite IH. simpl. do 3 f_equal. lia.
Qed.

Lemma interval_rev_S lo n :
  rev (interval lo (S n)) = (lo + Z.of_nat n) :: rev (interval lo n).
Proof. rewrite interval_snoc, rev_app_distr. reflexivity. Qed.

Lemma interval_NoDup lo n : NoDup (interval lo n).
Proof.
  revert lo. induction n as [|n IH]; intros lo; simpl; constructor.
  - rewrite interval_In. lia.
  - apply IH.
Qed.

Lemma interval_ascending lo n : StronglySorted Z.lt (interval lo n).
Proof.
  revert lo. induction n as [|n IH]; intros lo; simpl; constructor.
  - apply IH.
  - apply Forall_forall. intros v Hv. apply interval_In in Hv. lia.
Qed.


(* ================================================================== *)
(** ** Single steps *)

Section Steps.

Variable E : Enum.

Let T : integral_type := underlying_type E.

Lemma EnumIter_incr_fits (it : EnumIter E) :
  in_range T (unwrap it + 1) ->
  this_after (EnumIter_incr it) = EnumIter_of E (unwrap it + 1).
Proof.
  intros H. unfold EnumIter_incr, EnumIter_of, wrap. simpl.
  rewrite to_integral_fits by exact H. reflexivity.
Qed.

Lemma EnumIter_decr_fits (it : EnumIter E) :
  in_range T (unwrap it - 1) ->
  this_after (EnumIter_decr it) = EnumIter_of E (unwrap it - 1).
Proof.
  intros H. unfold EnumIter_decr, EnumIter_of, wrap. simpl.
  rewrite to_integral_fits by exact H. reflexivity.
Qed.

Lemma ReverseEnumIter_incr_fits (it : ReverseEnumIter E) :
  in_range T (unwrap it - 1) ->
  this_after (ReverseEnumIter_incr it) = ReverseEnumIter_of E (unwrap it - 1).
Proof.
  intros H. unfold ReverseEnumIter_incr, ReverseEnumIter_of, wrap. simpl.
  rewrite to_integral_fits by exact H. reflexivity.
Qed.

Lemma ReverseEnumIter_decr_fits (it : ReverseEnumIter E) :
  in_range T (unwrap it + 1) ->
  this_after (ReverseEnumIter_decr it) = ReverseEnumIter_of E (unwrap it + 1).
Proof.
  intros H. unfold ReverseEnumIter_decr, ReverseEnumIter_of, wrap. simpl.
  rewrite to_integral_fits by exact H. reflexivity.
Qed.

Lemma base_eq_spec (a b : EnumIterBase E) :
  base_eq a b = true <-> unwrap a = unwrap b.
Proof. unfold base_eq, unwrap. apply Z.eqb_eq. Qed.

Lemma base_ne_spec (a b : EnumIterBase E) :
  base_ne a b = true <-> unwrap a <> unwrap b.
Proof.
  unfold base_ne, unwrap. rewrite negb_true_iff. apply Z.eqb_neq.
Qed.

Lemma rbegin_unfold (range : Enumerate E) :
  Enumerate_rbegin range
  = MkReverseEnumIter (MkEnumIterBase (to_integral T (END E - 1))).
Proof. reflexivity. Qed.

Lemma rend_unfold (range : Enumerate E) :
  Enumerate_rend range
  = MkReverseEnumIter (MkEnumIterBase (to_integral T (BEGIN E - 1))).
Proof. reflexivity. Qed.

End Steps.

(* ================================================================== *)
(** ** The two loops *)

Section Loops.

Variable E : Enum.

Let T : integral_type := underlying_type E.

(** Counting up from [lo] to [lo + n] inside the underlying type. *)
Lemma for_loop_forward (n : nat) : forall (fuel : nat) (lo : Z),
  in_range T lo ->
  lo + Z.of_nat n <= max_value T ->
  (n <= fuel)%nat ->
  for_loop fuel (EnumIter_of E lo) (EnumIter_of E (lo + Z.of_nat n))
  = Some (interval lo n).
Proof.
  induction n as [|n IH]; intros fuel lo Hlo Hhi Hfuel.
  - replace (lo + Z.of_nat 0) with lo by lia.
    destruct fuel; simpl; unfold base_ne; simpl;
      rewrite Z.eqb_refl; reflexivity.
  - destruct fuel as [|fuel]; [lia|].
    cbn [for_loop not_equal EnumIter_Iterator deref pre_increment].
    assert (Hne : base_ne (EnumIter_of E lo)
                    (EnumIter_of E (lo + Z.of_nat (S n))) = true).
    { apply base_ne_spec. simpl. lia. }
    rewrite Hne.
    rewrite EnumIter_incr_fits
      by (unfold in_range in *; simpl; fold T; lia).
    replace (lo + Z.of_nat (S n)) with ((lo + 1) + Z.of_nat n) by lia.
    change (unwrap (EnumIter_of E lo)) with lo.
    rewrite IH; [reflexivity | unfold in_range in *; lia | lia | lia].
Qed.

(** Counting down from [lo + n - 1] to the value one step below [lo],
    which is [lo - 1] or, when [lo] is the minimum of the type, the
    maximum. *)
Lemma for_loop_reverse (n : nat) : forall (fuel : nat) (lo : Z),
  in_range T lo ->
  lo + Z.of_nat n <= max_value T ->
  (n <= fuel)%nat ->
  for_loop fuel
    (MkReverseEnumIter (@MkEnumIterBase E (to_integral T (lo + Z.of_nat n - 1))))
    (MkReverseEnumIter (@MkEnumIterBase E (to_integral T (lo - 1))))
  = Some (rev (interval lo n)).
Proof.
  induction n as [|n IH]; intros fuel lo Hlo Hhi Hfuel.
  - replace (lo + Z.of_nat 0 - 1) with (lo - 1) by lia.
    destruct fuel; simpl; unfold base_ne; simpl;
      rewrite Z.eqb_refl; reflexivity.
  - destruct fuel as [|fuel]; [lia|].
    assert (Hfit : to_integral T (lo + Z.of_nat (S n) - 1) = lo + Z.of_nat n).
    { rewrite to_integral_fits by (unfold in_range in *; lia). lia. }
    rewrite Hfit.
    cbn [for_loop not_equal ReverseEnumIter_Iterator deref pre_increment].
    assert (Hne : base_ne
                    (MkReverseEnumIter (@MkEnumIterBase E (lo + Z.of_nat n)))
                    (MkReverseEnumIter
                       (@MkEnumIterBase E (to_integral T (lo - 1)))) = true).
    { apply base_ne_spec. simpl.
      destruct (to_integral_pred T lo Hlo) as [[_ ->]|[_ ->]]; lia. }
    rewrite Hne, interval_rev_S.
    unfold ReverseEnumIter_incr, wrap.
    cbn [this_after unwrap m_inner riter_base base_deref]. fold T.
    rewrite IH by (unfold in_range in *; lia).
    reflexivity.
Qed.

(** [n] steps forward inside the underlying type. *)
Lemma advance_fits (n : nat) (lo : Z) :
  in_range T lo ->
  lo + Z.of_nat n <= max_value T ->
  advance n (EnumIter_of E lo) = EnumIter_of E (lo + Z.of_nat n).
Proof.
  intros Hlo. induction n as [|n IH]; intros Hhi.
  - simpl. f_equal. lia.
  - change (advance (S n) (EnumIter_of E lo))
      with (this_after (EnumIter_incr (advance n (EnumIter_of E lo)))).
    rewrite IH by lia.
    rewrite EnumIter_incr_fits
      by (unfold in_range in *; simpl; fold T; lia).
    simpl. f_equal. lia.
Qed.

Lemma range_size_spec (range : Enumerate E) :
  BEGIN E + Z.of_nat (range_size E) = END E.
Proof.
  pose proof (BEGIN_le_END range). unfold range_size. lia.
Qed.

Lemma forward_traversal_result (range : Enumerate E) (fuel : nat) :
  (range_size E <= fuel)%nat ->
  forward_traversal range fuel = Some (interval (BEGIN E) (range_size E)).
Proof.
  intros Hfuel. unfold forward_traversal, Enumerate_begin, Enumerate_end.
  unfold begin_value, end_value.
  rewrite <- (range_size_spec range) at 1.
  apply for_loop_forward.
  - apply BEGIN_in_range.
  - rewrite range_size_spec by exact range. apply END_in_range.
  - exact Hfuel.
Qed.

Lemma reverse_traversal_result (range : Enumerate E) (fuel : nat) :
  (range_size E <= fuel)%nat ->
  reverse_traversal range fuel
  = Some (rev (interval (BEGIN E) (range_size E))).
Proof.
  intros Hfuel. unfold reverse_traversal.
  rewrite rbegin_unfold, rend_unfold. fold T.
  rewrite <- (range_size_spec range) at 1.
  apply for_loop_reverse.
  - apply BEGIN_in_range.
  - rewrite range_size_spec by exact range. apply END_in_range.
  - exact Hfuel.
Qed.

Lemma interval_range_In (range : Enumerate E) (v : Z) :
  In v (interval (BEGIN E) (range_size E)) <-> BEGIN E <= v < END E.
Proof.
  rewrite interval_In, range_size_spec by exact range. reflexivity.
Qed.

End Loops.

(* ================================================================== *)
(** ** The two loops, with the undefined steps told apart *)

Section CheckedLoops.

Variable E : Enum.

Let T : integral_type := underlying_type E.








End CheckedLoops.


(* ================================================================== *)
(** ** Properties of the traversals *)

(** C1. For an [enum] that follows the protocol, the loop from [begin()]
    until the iterator equals [end()], reading [*it] and then applying
    [++it], comes to an end and has visited exactly the items whose
    underlying integers are [BEGIN], [BEGIN + 1], ..., [END - 1]: each one
    once, in ascending order. *)
Theorem forward_traversal_visits_range
  (E : Enum) (range : Enumerate E) (fuel : nat) :
  (range_size E <= fuel)%nat ->
  exists visited : list Z,
    forward_traversal range fuel = Some visited
    /\ visited = interval (BEGIN E) (Z.to_nat (END E - BEGIN E))
    /\ (forall v, In v visited <-> BEGIN E <= v < END E)
    /\ NoDup visited
    /\ StronglySorted Z.lt visited.
Proof.
  intros Hfuel. exists (interval (BEGIN E) (range_size E)).
  split; [apply forward_traversal_result; exact Hfuel|].
  split; [reflexivity|].
  split; [intros v; apply interval_range_In; exact range|].
  split; [apply interval_NoDup | apply interval_ascending].
Qed.

Lemma forward_traversal_visits_range_Fruit :
  exists visited : list Z,
    forward_traversal Fruit_range 3 = Some visited
    /\ visited = interval (BEGIN Fruit) (Z.to_nat (END Fruit - BEGIN Fruit))
    /\ (forall v, In v visited <-> BEGIN Fruit <= v < END Fruit)
    /\ NoDup visited
    /\ StronglySorted Z.lt visited.
Proof.
  apply (forward_traversal_visits_range Fruit Fruit_range 3).
  vm_compute. apply le_n.
Defined.




(* ================================================================== *)
(** ** The reverse sentinels *)

(** C3, as claimed, at [Colour], whose underlying type is unsigned and
    whose [BEGIN] is [0]: [rend()] wraps [255], the value that [0 - 1]
    converts to, and not [BEGIN - 1]. *)
Lemma rend_of_unsigned_range_wraps :
  unwrap (Enumerate_rend Colour_range) = 255
  /\ ~ (unwrap (Enumerate_rbegin Colour_range) = END Colour - 1
        /\ unwrap (Enumerate_rend Colour_range) = BEGIN Colour - 1).
Proof.
  split; [reflexivity|].
  intros [_ H]. vm_compute in H. discriminate H.
Qed.

(** C3, amended. [rbegin()] and [rend()] are each one application of the
    reverse iterator's [++] to an iterator wrapping [END], respectively
    [BEGIN].  The item wrapped by [rbegin()] has the integer [END - 1]
    whenever [END] is above the minimum of the underlying type, and the
    one wrapped by [rend()] has the integer [BEGIN - 1] whenever [BEGIN] is
    above that minimum.  Where [BEGIN] is [0] in an unsigned underlying
    type, [rend()] wraps the maximum of the type. *)
Theorem reverse_sentinels
  (E : Enum) (range : Enumerate E) :
  let T := underlying_type E in
  Enumerate_rbegin range
    = returned (ReverseEnumIter_incr (ReverseEnumIter_of E (END E)))
  /\ Enumerate_rend range
    = returned (ReverseEnumIter_incr (ReverseEnumIter_of E (BEGIN E)))
  /\ (min_value T < END E -> unwrap (Enumerate_rbegin range) = END E - 1)
  /\ (min_value T < BEGIN E -> unwrap (Enumerate_rend range) = BEGIN E - 1)
  /\ (is_signed T = false -> BEGIN E = 0 ->
      unwrap (Enumerate_rend range) = max_value T).
Proof.
  intros T.
  pose proof (BEGIN_in_range E) as HB. pose proof (END_in_range E) as HE.
  fold T in HB, HE. unfold in_range in HB, HE.
  split; [reflexivity|]. split; [reflexivity|].
  rewrite rbegin_unfold, rend_unfold. fold T. simpl.
  split; [|split].
  - intros H. apply to_integral_fits. unfold in_range. lia.
  - intros H. apply to_integral_fits. unfold in_range. lia.
  - intros Hs H0. rewrite H0.
    replace 0 with (min_value T) by (unfold min_value; rewrite Hs; reflexivity).
    apply to_integral_below_min.
Qed.

Lemma reverse_sentinels_Fruit_Colour :
  unwrap (Enumerate_rbegin Fruit_range) = END Fruit - 1
  /\ unwrap (Enumerate_rend Fruit_range) = BEGIN Fruit - 1
  /\ unwrap (Enumerate_rend Colour_range) = max_value uint8_t.
Proof.
  destruct (reverse_sentinels Fruit Fruit_range) as (_ & _ & Hb & He & _).
  destruct (reverse_sentinels Colour Colour_range) as (_ & _ & _ & _ & Hw).
  split; [apply Hb; reflexivity|].
  split; [apply He; reflexivity|].
  apply Hw; reflexivity.
Defined.

(* ================================================================== *)
(** ** Reaching [end()] by counting *)

(** C4. [END - BEGIN] applications of [++] to [begin()] give an iterator
    that compares equal to [end()]. *)
Theorem advance_range_size_reaches_end
  (E : Enum) (range : Enumerate E) :
  base_eq
    (advance (Z.to_nat (END E - BEGIN E)) (Enumerate_begin range))
    (Enumerate_end range)
  = true.
Proof.
  unfold Enumerate_begin, Enumerate_end, begin_value, end_value.
  change (Z.to_nat (END E - BEGIN E)) with (range_size E).
  rewrite advance_fits.
  - rewrite range_size_spec by exact range. apply base_eq_spec. reflexivity.
  - apply BEGIN_in_range.
  - rewrite range_size_spec by exact range. apply END_in_range.
Qed.

(* ================================================================== *)
(** ** The step operators *)

(** C5, as claimed, at the iterator [end()] of [Octet], which wraps [255]
    in an unsigned 8-bit type: [++] leaves [0] there, not [256]. *)
Lemma increment_at_maximum_wraps :
  unwrap (Enumerate_end Octet_range) = 255
  /\ unwrap (this_after (EnumIter_incr (Enumerate_end Octet_range))) = 0
  /\ unwrap (this_after (EnumIter_incr (Enumerate_end Octet_range)))
     <> unwrap (Enumerate_end Octet_range) + 1.
Proof.
  split; [reflexivity|]. split; [reflexivity|].
  vm_compute. discriminate.
Qed.

(** C5, amended. Whenever the stepped integer is a value of the underlying
    type, [++] of the forwards iterator adds [1] to the integer of the
    wrapped item and [--] subtracts [1], while [++] of the backwards
    iterator subtracts [1] and [--] adds [1].  For every iterator the two
    variants are swapped exactly: forwards [++] stores what backwards [--]
    stores, and forwards [--] what backwards [++] stores.  Each operator
    returns the iterator as it is after the step.  Nothing depends on
    [BEGIN] or [END]. *)
Theorem step_operators
  (E : Enum) (it : EnumIter E) (rit : ReverseEnumIter E) :
  let T := underlying_type E in
  (in_range T (unwrap it + 1) ->
     unwrap (this_after (EnumIter_incr it)) = unwrap it + 1)
  /\ (in_range T (unwrap it - 1) ->
     unwrap (this_after (EnumIter_decr it)) = unwrap it - 1)
  /\ (in_range T (unwrap rit - 1) ->
     unwrap (this_after (ReverseEnumIter_incr rit)) = unwrap rit - 1)
  /\ (in_range T (unwrap rit + 1) ->
     unwrap (this_after (ReverseEnumIter_decr rit)) = unwrap rit + 1)
  /\ (unwrap it = unwrap rit ->
      unwrap (this_after (EnumIter_incr it))
        = unwrap (this_after (ReverseEnumIter_decr rit))
      /\ unwrap (this_after (EnumIter_decr it))
        = unwrap (this_after (ReverseEnumIter_incr rit)))
  /\ returned (EnumIter_incr it) = this_after (EnumIter_incr it)
  /\ returned (EnumIter_decr it) = this_after (EnumIter_decr it)
  /\ returned (ReverseEnumIter_incr rit) = this_after (ReverseEnumIter_incr rit)
  /\ returned (ReverseEnumIter_decr rit) = this_after (ReverseEnumIter_decr rit).
Proof.
  intros T.
  split; [intros H; rewrite EnumIter_incr_fits by exact H; reflexivity|].
  split; [intros H; rewrite EnumIter_decr_fits by exact H; reflexivity|].
  split; [intros H; rewrite ReverseEnumIter_incr_fits by exact H; reflexivity|].
  split; [intros H; rewrite ReverseEnumIter_decr_fits by exact H; reflexivity|].
  split.
  - intros Heq. unfold EnumIter_incr, EnumIter_decr, ReverseEnumIter_incr,
      ReverseEnumIter_decr, wrap. simpl. rewrite Heq. split; reflexivity.
  - repeat split.
Qed.

Lemma step_operators_Fruit :
  let it := EnumIter_of Fruit 1 in
  let rit := ReverseEnumIter_of Fruit 1 in
  unwrap (this_after (EnumIter_incr it)) = 2
  /\ unwrap (this_after (EnumIter_decr it)) = 0
  /\ unwrap (this_after (ReverseEnumIter_incr rit)) = 0
  /\ unwrap (this_after (ReverseEnumIter_decr rit)) = 2
  /\ unwrap (this_after (EnumIter_incr it))
       = unwrap (this_after (ReverseEnumIter_decr rit))
  /\ unwrap (this_after (EnumIter_decr it))
       = unwrap (this_after (ReverseEnumIter_incr rit)).
Proof.
  intros it rit.
  destruct (step_operators Fruit it rit)
    as (Hi & Hd & Hri & Hrd & Hswap & _).
  split; [apply Hi; vm_compute; split; discriminate|].
  split; [apply Hd; vm_compute; split; discriminate|].
  split; [apply Hri; vm_compute; split; discriminate|].
  split; [apply Hrd; vm_compute; split; discriminate|].
  apply Hswap. reflexivity.
Defined.

(* ================================================================== *)
(** ** Comparison *)

(** C6. Two iterators of the same variant over the same [enum] compare
    equal with [==] exactly when the items they wrap have the same
    underlying integer. *)
Theorem equality_iff_same_integer
  (E : Enum) (a b : EnumIter E) (c d : ReverseEnumIter E) :
  (base_eq a b = true <-> unwrap a = unwrap b)
  /\ (base_eq c d = true <-> unwrap c = unwrap d).
Proof. split; apply base_eq_spec. Qed.

(** C10. [!=] is the negation of [==]: on two iterators of the same
    variant it returns [true] exactly when [==] returns [false]. *)
Theorem inequality_negates_equality
  (E : Enum) (a b : EnumIter E) (c d : ReverseEnumIter E) :
  (base_ne a b = true <-> base_eq a b = false)
  /\ (base_ne c d = true <-> base_eq c d = false)
  /\ base_ne a b = negb (base_eq a b)
  /\ base_ne c d = negb (base_eq c d).
Proof.
  unfold base_ne, base_eq.
  repeat split; try apply negb_true_iff; intros H; apply negb_true_iff; exact H.
Qed.

(* ================================================================== *)
(** ** The empty range *)



(* ================================================================== *)
(** ** The compile-time check *)

(** C8. [Enumerate<Enum>] can be instantiated exactly when the integer of
    [BEGIN] is at most that of [END]; when it is greater the
    [static_assert] rejects the instantiation. *)
Theorem instantiate_iff_BEGIN_le_END (E : Enum) :
  ((exists range : Enumerate E, instantiate E = Some range)
     <-> BEGIN E <= END E)
  /\ (instantiate E = None <-> END E < BEGIN E)
  /\ (inhabited (Enumerate E) <-> BEGIN E <= END E).
Proof.
  unfold instantiate, begin_value, end_value.
  destruct (bool_dec (BEGIN E <=? END E) true) as [Hle|Hgt].
  - pose proof (proj1 (Z.leb_le _ _) Hle) as H.
    split; [|split].
    + split; [intros _; exact H | intros _; eexists; reflexivity].
    + split; [discriminate | lia].
    + split; [intros _; exact H | intros _; constructor; exact (MkEnumerate Hle)].
  - apply not_true_is_false in Hgt.
    pose proof (proj1 (Z.leb_gt _ _) Hgt) as H.
    split; [|split].
    + split; [intros [range Hr]; discriminate Hr | lia].
    + split; [intros _; exact H | reflexivity].
    + split; [|lia]. intros [range]. apply (BEGIN_le_END range).
Qed.

(* ================================================================== *)
(** ** Stepping there and back *)

(** C9. Where the step does not leave the underlying type, [++] followed
    by [--], and [--] followed by [++], bring an iterator of either variant
    back to one that compares equal to the iterator before the two
    steps. *)
Theorem step_round_trip
  (E : Enum) (it : EnumIter E) (rit : ReverseEnumIter E) :
  let T := underlying_type E in
  in_range T (unwrap it) ->
  in_range T (unwrap rit) ->
  (in_range T (unwrap it + 1) ->
     base_eq (this_after (EnumIter_decr (this_after (EnumIter_incr it)))) it
     = true)
  /\ (in_range T (unwrap it - 1) ->
     base_eq (this_after (EnumIter_incr (this_after (EnumIter_decr it)))) it
     = true)
  /\ (in_range T (unwrap rit - 1) ->
     base_eq
       (this_after (ReverseEnumIter_decr (this_after (ReverseEnumIter_incr rit))))
       rit
     = true)
  /\ (in_range T (unwrap rit + 1) ->
     base_eq
       (this_after (ReverseEnumIter_incr (this_after (ReverseEnumIter_decr rit))))
       rit
     = true).
Proof.
  intros T Hit Hrit.
  split; [|split; [|split]]; intros Hstep; apply base_eq_spec.
  - rewrite EnumIter_incr_fits by exact Hstep.
    rewrite EnumIter_decr_fits;
      simpl; [lia | fold T; replace (unwrap it + 1 - 1) with (unwrap it) by lia;
                    exact Hit].
  - rewrite EnumIter_decr_fits by exact Hstep.
    rewrite EnumIter_incr_fits;
      simpl; [lia | fold T; replace (unwrap it - 1 + 1) with (unwrap it) by lia;
                    exact Hit].
  - rewrite ReverseEnumIter_incr_fits by exact Hstep.
    rewrite ReverseEnumIter_decr_fits;
      simpl; [lia | fold T; replace (unwrap rit - 1 + 1) with (unwrap rit) by lia;
                    exact Hrit].
  - rewrite ReverseEnumIter_decr_fits by exact Hstep.
    rewrite ReverseEnumIter_incr_fits;
      simpl; [lia | fold T; replace (unwrap rit + 1 - 1) with (unwrap rit) by lia;
                    exact Hrit].
Qed.

Lemma step_round_trip_Fruit :
  let it := EnumIter_of Fruit 1 in
  let rit := ReverseEnumIter_of Fruit 2 in
  base_eq (this_after (EnumIter_decr (this_after (EnumIter_incr it)))) it = true
  /\ base_eq (this_after (EnumIter_incr (this_after (EnumIter_decr it)))) it = true
  /\ base_eq
       (this_after (ReverseEnumIter_decr (this_after (ReverseEnumIter_incr rit))))
       rit = true
  /\ base_eq
       (this_after (ReverseEnumIter_incr (this_after (ReverseEnumIter_decr rit))))
       rit = true.
Proof.
  intros it rit.
  assert (Hfits : forall z, in_rangeb int_t z = true -> in_range int_t z)
    by (intros z; apply in_rangeb_spec).
  destruct (step_round_trip Fruit it rit) as (H1 & H2 & H3 & H4);
    try (apply Hfits; reflexivity).
  split; [apply H1; apply Hfits; reflexivity|].
  split; [apply H2; apply Hfits; reflexivity|].
  split; [apply H3; apply Hfits; reflexivity|].
  apply H4; apply Hfits; reflexivity.
Defined.

(* ================================================================== *)
(** ** More on the arithmetic of the underlying type *)

Lemma to_integral_shift (t : integral_type) (a b : Z) :
  is_bool t = false ->
  to_integral t (to_integral t a + b) = to_integral t (a + b).
Proof.
  intros Hb. rewrite !to_integral_modulo by exact Hb. f_equal.
  replace ((a - min_value t) mod modulus t + min_value t + b - min_value t)
    with ((a - min_value t) mod modulus t + b) by lia.
  rewrite Zplus_mod_idemp_l. f_equal. lia.
Qed.

Lemma to_integral_there_and_back (t : integral_type) (z k : Z) :
  is_bool t = false ->
  in_range t z ->
  to_integral t (to_integral t (z + k) - k) = z.
Proof.
  intros Hb Hz. unfold Z.sub at 1. rewrite to_integral_shift by exact Hb.
  replace (z + k + - k) with z by lia.
  apply to_integral_fits, Hz.
Qed.

Lemma to_integral_down_up (t : integral_type) (z : Z) :
  is_bool t = false ->
  in_range t z -> to_integral t (to_integral t (z - 1) + 1) = z.
Proof.
  intros Hb Hz. rewrite to_integral_shift by exact Hb.
  replace (z - 1 + 1) with z by lia. apply to_integral_fits, Hz.
Qed.

Lemma to_integral_up_down (t : integral_type) (z : Z) :
  is_bool t = false ->
  in_range t z -> to_integral t (to_integral t (z + 1) - 1) = z.
Proof. apply to_integral_there_and_back. Qed.

Lemma to_integral_step_injective (t : integral_type) (x y k : Z) :
  is_bool t = false ->
  in_range t x -> in_range t y ->
  to_integral t (x + k) = to_integral t (y + k) -> x = y.
Proof.
  intros Hb Hx Hy Heq.
  rewrite <- (to_integral_there_and_back t x k Hb Hx).
  rewrite <- (to_integral_there_and_back t y k Hb Hy).
  rewrite Heq. reflexivity.
Qed.

(** One step down keeps two values of the type apart, in every type. *)
Lemma to_integral_pred_injective (t : integral_type) (x y : Z) :
  in_range t x -> in_range t y ->
  to_integral t (x - 1) = to_integral t (y - 1) -> x = y.
Proof.
  intros Hx Hy.
  destruct (to_integral_pred t x Hx) as [[Hx' ->]|[Hx' ->]],
           (to_integral_pred t y Hy) as [[Hy' ->]|[Hy' ->]];
    unfold in_range in *; lia.
Qed.

Lemma interval_nth_error (lo : Z) (n k : nat) :
  (k < n)%nat -> nth_error (interval lo n) k = Some (lo + Z.of_nat k).
Proof.
  revert lo k. induction n as [|n IH]; intros lo k Hk; [lia|].
  destruct k as [|k]; simpl.
  - f_equal. lia.
  - rewrite IH by lia. f_equal. lia.
Qed.


(* ================================================================== *)
(** ** Loops that are given too few iterations *)

Section ShortLoops.

Variable E : Enum.

Let T : integral_type := underlying_type E.

Lemma for_loop_forward_short (fuel : nat) : forall (n : nat) (lo : Z),
  in_range T lo ->
  lo + Z.of_nat n <= max_value T ->
  (fuel < n)%nat ->
  for_loop fuel (EnumIter_of E lo) (EnumIter_of E (lo + Z.of_nat n)) = None.
Proof.
  induction fuel as [|fuel IH]; intros n lo Hlo Hhi Hfuel;
    (destruct n as [|n]; [lia|]);
    cbn [for_loop not_equal EnumIter_Iterator deref pre_increment];
    assert (Hne : base_ne (EnumIter_of E lo)
                    (EnumIter_of E (lo + Z.of_nat (S n))) = true)
      by (apply base_ne_spec; simpl; lia);
    rewrite Hne; [reflexivity|].
  rewrite EnumIter_incr_fits
    by (unfold in_range in *; simpl; fold T; lia).
  replace (lo + Z.of_nat (S n)) with ((lo + 1) + Z.of_nat n) by lia.
  change (unwrap (EnumIter_of E lo)) with lo.
  rewrite IH; [reflexivity | unfold in_range in *; lia | lia | lia].
Qed.

Lemma for_loop_reverse_short (fuel : nat) : forall (n : nat) (lo : Z),
  in_range T lo ->
  lo + Z.of_nat n <= max_value T ->
  (fuel < n)%nat ->
  for_loop fuel
    (MkReverseEnumIter (@MkEnumIterBase E (to_integral T (lo + Z.of_nat n - 1))))
    (MkReverseEnumIter (@MkEnumIterBase E (to_integral T (lo - 1))))
  = None.
Proof.
  induction fuel as [|fuel IH]; intros n lo Hlo Hhi Hfuel;
    (destruct n as [|n]; [lia|]);
    assert (Hfit : to_integral T (lo + Z.of_nat (S n) - 1) = lo + Z.of_nat n)
      by (rewrite to_integral_fits by (unfold in_range in *; lia); lia);
    rewrite Hfit;
    cbn [for_loop not_equal ReverseEnumIter_Iterator deref pre_increment];
    assert (Hne : base_ne
                    (MkReverseEnumIter (@MkEnumIterBase E (lo + Z.of_nat n)))
                    (MkReverseEnumIter
                       (@MkEnumIterBase E (to_integral T (lo - 1)))) = true)
      by (apply base_ne_spec; simpl;
          destruct (to_integral_pred T lo Hlo) as [[_ ->]|[_ ->]]; lia);
    rewrite Hne; [reflexivity|].
  unfold ReverseEnumIter_incr, wrap.
  cbn [this_after unwrap m_inner riter_base base_deref]. fold T.
  rewrite IH by (unfold in_range in *; lia).
  reflexivity.
Qed.

Lemma forward_traversal_short (range : Enumerate E) (fuel : nat) :
  (fuel < range_size E)%nat -> forward_traversal range fuel = None.
Proof.
  intros Hfuel. unfold forward_traversal, Enumerate_begin, Enumerate_end.
  unfold begin_value, end_value.
  rewrite <- (range_size_spec E range) at 1.
  apply for_loop_forward_short.
  - apply BEGIN_in_range.
  - rewrite range_size_spec by exact range. apply END_in_range.
  - exact Hfuel.
Qed.

Lemma reverse_traversal_short (range : Enumerate E) (fuel : nat) :
  (fuel < range_size E)%nat -> reverse_traversal range fuel = None.
Proof.
  intros Hfuel. unfold reverse_traversal.
  rewrite rbegin_unfold, rend_unfold. fold T.
  rewrite <- (range_size_spec E range) at 1.
  apply for_loop_reverse_short.
  - apply BEGIN_in_range.
  - rewrite range_size_spec by exact range. apply END_in_range.
  - exact Hfuel.
Qed.

(** What a finished traversal has visited. *)
Lemma forward_traversal_inv (range : Enumerate E) (fuel : nat) visited :
  forward_traversal range fuel = Some visited ->
  (range_size E <= fuel)%nat /\ visited = interval (BEGIN E) (range_size E).
Proof.
  intros H. destruct (Nat.le_gt_cases (range_size E) fuel) as [Hle|Hgt].
  - split; [exact Hle|].
    rewrite forward_traversal_result in H by exact Hle. congruence.
  - rewrite forward_traversal_short in H by exact Hgt. discriminate H.
Qed.

Lemma reverse_traversal_inv (range : Enumerate E) (fuel : nat) visited :
  reverse_traversal range fuel = Some visited ->
  (range_size E <= fuel)%nat
  /\ visited = rev (interval (BEGIN E) (range_size E)).
Proof.
  intros H. destruct (Nat.le_gt_cases (range_size E) fuel) as [Hle|Hgt].
  - split; [exact Hle|].
    rewrite reverse_traversal_result in H by exact Hle. congruence.
  - rewrite reverse_traversal_short in H by exact Hgt. discriminate H.
Qed.



End ShortLoops.

(* ================================================================== *)
(** ** Further properties of the traversals *)





(** X3. The item at position [n] of the forward traversal is the item of
    the iterator reached by [n] applications of [++] to [begin()], and its
    integer is [BEGIN + n]. *)
Theorem nth_item_is_nth_advance
  (E : Enum) (range : Enumerate E) (fuel n : nat) :
  (range_size E <= fuel)%nat ->
  (n < range_size E)%nat ->
  exists visited : list Z,
    forward_traversal range fuel = Some visited
    /\ nth_error visited n
       = Some (base_deref (advance n (Enumerate_begin range)))
    /\ base_deref (advance n (Enumerate_begin range)) = BEGIN E + Z.of_nat n.
Proof.
  intros Hfuel Hn.
  pose proof (range_size_spec E range) as Hsize.
  pose proof (END_in_range E) as HE. unfold in_range in HE.
  exists (interval (BEGIN E) (range_size E)).
  split; [apply forward_traversal_result; exact Hfuel|].
  unfold Enumerate_begin, begin_value.
  rewrite advance_fits by (try apply BEGIN_in_range; lia).
  split; [|reflexivity].
  apply interval_nth_error. exact Hn.
Qed.

Lemma nth_item_is_nth_advance_Fruit :
  exists visited : list Z,
    forward_traversal Fruit_range 3 = Some visited
    /\ nth_error visited 2
       = Some (base_deref (advance 2 (Enumerate_begin Fruit_range)))
    /\ base_deref (advance 2 (Enumerate_begin Fruit_range))
       = BEGIN Fruit + Z.of_nat 2.
Proof.
  apply (nth_item_is_nth_advance Fruit Fruit_range 3 2).
  - vm_compute. apply le_n.
  - vm_compute. apply le_n.
Defined.

(** X4. Neither loop reads a sentinel.  An item visited by the forward
    traversal is never the item of [end()] and lies in the underlying type
    strictly below its maximum.  Where [BEGIN] is not the minimum of a
    signed underlying type of the rank of [int] or above, the same holds
    of the reverse traversal and the item of [rend()]. *)
Theorem traversals_never_visit_sentinels
  (E : Enum) (range : Enumerate E) (fuel : nat) (visited : list Z) (v : Z) :
  In v visited ->
  (forward_traversal range fuel = Some visited ->
     v <> base_deref (Enumerate_end range)
     /\ min_value (underlying_type E) <= v < max_value (underlying_type E))
  /\ ((overflow_is_undefined (underlying_type E) = true ->
         min_value (underlying_type E) < BEGIN E) ->
      reverse_traversal range fuel = Some visited ->
      v <> base_deref (Enumerate_rend range)
      /\ min_value (underlying_type E) <= v < max_value (underlying_type E)).
Proof.
  intros Hin.
  pose proof (BEGIN_in_range E) as HB. pose proof (END_in_range E) as HE.
  unfold in_range in HB, HE.
  split; [intros H | intros _ H].
  - apply forward_traversal_inv in H as [_ ->].
    apply interval_range_In in Hin; [|exact range].
    unfold Enumerate_end, end_value. simpl. lia.
  - apply reverse_traversal_inv in H as [_ ->].
    apply in_rev, interval_range_In in Hin; [|exact range].
    rewrite rend_unfold. simpl.
    destruct (to_integral_pred (underlying_type E) (BEGIN E)
                (BEGIN_in_range E)) as [[_ ->]|[_ ->]]; lia.
Qed.

Lemma traversals_never_visit_sentinels_Colour :
  (0 <> base_deref (Enumerate_end Colour_range)
   /\ min_value (underlying_type Colour) <= 0 < max_value (underlying_type Colour))
  /\ (0 <> base_deref (Enumerate_rend Colour_range)
   /\ min_value (underlying_type Colour) <= 0 < max_value (underlying_type Colour)).
Proof.
  split.
  - apply (traversals_never_visit_sentinels
             Colour Colour_range 3 [0; 1; 2] 0); [left|]; reflexivity.
  - apply (traversals_never_visit_sentinels
             Colour Colour_range 3 [2; 1; 0] 0);
      [right; right; left; reflexivity | intros H; discriminate H
       | reflexivity].
Defined.

(* ================================================================== *)
(** ** Further properties of the sentinels *)

(** X5. Where [BEGIN] is not the minimum of a signed underlying type of
    the rank of [int] or above, the reverse range is empty exactly when the
    forward range is: [rbegin() == rend()] has the value of
    [begin() == end()], and both are true exactly when [BEGIN] and [END]
    have the same integer. *)
Theorem reverse_empty_iff_forward_empty
  (E : Enum) (range : Enumerate E) :
  (overflow_is_undefined (underlying_type E) = true ->
     min_value (underlying_type E) < BEGIN E) ->
  base_eq (Enumerate_rbegin range) (Enumerate_rend range)
    = base_eq (Enumerate_begin range) (Enumerate_end range)
  /\ (base_eq (Enumerate_begin range) (Enumerate_end range) = true
      <-> BEGIN E = END E)
  /\ (base_ne (Enumerate_rbegin range) (Enumerate_rend range) = true
      <-> BEGIN E < END E).
Proof.
  intros _.
  pose proof (BEGIN_le_END range) as Hle.
  assert (Hrev : base_eq (Enumerate_rbegin range) (Enumerate_rend range) = true
                 <-> BEGIN E = END E).
  { rewrite base_eq_spec, rbegin_unfold, rend_unfold. simpl. split.
    - intros H. symmetry.
      apply (to_integral_pred_injective (underlying_type E));
        [apply END_in_range | apply BEGIN_in_range | exact H].
    - intros ->. reflexivity. }
  assert (Hfwd : base_eq (Enumerate_begin range) (Enumerate_end range) = true
                 <-> BEGIN E = END E).
  { rewrite base_eq_spec. reflexivity. }
  split; [|split; [exact Hfwd|]].
  - apply eq_true_iff_eq. rewrite Hrev, Hfwd. reflexivity.
  - unfold base_ne.
    fold (base_eq (Enumerate_rbegin range) (Enumerate_rend range)).
    rewrite negb_true_iff, <- not_true_iff_false, Hrev. lia.
Qed.

Lemma reverse_empty_iff_forward_empty_Flag :
  base_eq (Enumerate_rbegin Flag_range) (Enumerate_rend Flag_range)
    = base_eq (Enumerate_begin Flag_range) (Enumerate_end Flag_range)
  /\ (base_eq (Enumerate_begin Flag_range) (Enumerate_end Flag_range) = true
      <-> BEGIN Flag = END Flag)
  /\ (base_ne (Enumerate_rbegin Flag_range) (Enumerate_rend Flag_range) = true
      <-> BEGIN Flag < END Flag).
Proof.
  apply (reverse_empty_iff_forward_empty Flag Flag_range).
  intros H. discriminate H.
Defined.

(** X6. The reverse iterator's [--] undoes the step by which [rbegin()]
    and [rend()] are made: applied to [rbegin()] it gives an iterator that
    compares equal to [end()], and applied to [rend()] one that compares
    equal to [begin()].  This holds where [BEGIN] is above the minimum of
    the underlying type, and also at the minimum when the type reduces
    modulo a power of two, which [bool] and the signed types of the rank
    of [int] or above do not. *)
Theorem reverse_sentinels_step_back
  (E : Enum) (range : Enumerate E) :
  converts_modulo (underlying_type E) = true
  \/ min_value (underlying_type E) < BEGIN E ->
  base_eq (this_after (ReverseEnumIter_decr (Enumerate_rbegin range)))
          (Enumerate_end range) = true
  /\ base_eq (this_after (ReverseEnumIter_decr (Enumerate_rend range)))
             (Enumerate_begin range) = true.
Proof.
  intros Hcase.
  pose proof (BEGIN_le_END range) as Hle.
  pose proof (BEGIN_in_range E) as HB. pose proof (END_in_range E) as HE.
  rewrite !base_eq_spec, rbegin_unfold, rend_unfold.
  unfold ReverseEnumIter_decr, wrap, Enumerate_begin, Enumerate_end,
    begin_value, end_value.
  simpl.
  destruct Hcase as [Hmod|Habove].
  - unfold converts_modulo in Hmod. apply andb_true_iff in Hmod as [Hb _].
    apply negb_true_iff in Hb.
    split; apply to_integral_down_up; assumption.
  - unfold in_range in HB, HE.
    rewrite (to_integral_fits _ (END E - 1)) by (unfold in_range; lia).
    rewrite (to_integral_fits _ (BEGIN E - 1)) by (unfold in_range; lia).
    replace (END E - 1 + 1) with (END E) by lia.
    replace (BEGIN E - 1 + 1) with (BEGIN E) by lia.
    split; apply to_integral_fits; unfold in_range; lia.
Qed.

Lemma reverse_sentinels_step_back_Colour_Single :
  (base_eq (this_after (ReverseEnumIter_decr (Enumerate_rbegin Colour_range)))
           (Enumerate_end Colour_range) = true
   /\ base_eq (this_after (ReverseEnumIter_decr (Enumerate_rend Colour_range)))
              (Enumerate_begin Colour_range) = true)
  /\ (base_eq (this_after (ReverseEnumIter_decr (Enumerate_rbegin Single_range)))
           (Enumerate_end Single_range) = true
   /\ base_eq (this_after (ReverseEnumIter_decr (Enumerate_rend Single_range)))
              (Enumerate_begin Single_range) = true).
Proof.
  split.
  - apply (reverse_sentinels_step_back Colour Colour_range).
    left. reflexivity.
  - apply (reverse_sentinels_step_back Single Single_range).
    right. reflexivity.
Defined.

(* ================================================================== *)
(** ** Stepping in an unsigned underlying type *)

(** X7. In an unsigned underlying type other than [bool] the steps wrap
    around and still undo each other everywhere: [++] of the forwards
    iterator at the maximum leaves [0], [--] at [0] leaves the maximum, and
    for every iterator of either variant [++] then [--], and [--] then
    [++], give an iterator equal to the one before. *)
Theorem unsigned_steps_wrap_and_undo
  (E : Enum) (it : EnumIter E) (rit : ReverseEnumIter E) :
  let T := underlying_type E in
  is_signed T = false ->
  is_bool T = false ->
  in_range T (unwrap it) ->
  in_range T (unwrap rit) ->
  (unwrap it = max_value T -> unwrap (this_after (EnumIter_incr it)) = 0)
  /\ (unwrap it = 0 -> unwrap (this_after (EnumIter_decr it)) = max_value T)
  /\ base_eq (this_after (EnumIter_decr (this_after (EnumIter_incr it)))) it
     = true
  /\ base_eq (this_after (EnumIter_incr (this_after (EnumIter_decr it)))) it
     = true
  /\ base_eq
       (this_after (ReverseEnumIter_decr (this_after (ReverseEnumIter_incr rit))))
       rit = true
  /\ base_eq
       (this_after (ReverseEnumIter_incr (this_after (ReverseEnumIter_decr rit))))
       rit = true.
Proof.
  intros T Hu Hnb Hit Hrit.
  assert (Hmin : min_value T = 0) by (unfold min_value; rewrite Hu; reflexivity).
  unfold EnumIter_incr, EnumIter_decr, ReverseEnumIter_incr,
    ReverseEnumIter_decr, wrap.
  cbn [this_after iter_base riter_base unwrap m_inner]. fold T.
  rewrite !base_eq_spec. cbn [unwrap m_inner iter_base riter_base].
  split; [|split; [|split; [|split; [|split]]]].
  - intros ->. rewrite <- Hmin. apply to_integral_above_max, Hnb.
  - intros ->. rewrite <- Hmin at 1. apply to_integral_below_min.
  - apply to_integral_up_down; assumption.
  - apply to_integral_down_up; assumption.
  - apply to_integral_down_up; assumption.
  - apply to_integral_up_down; assumption.
Qed.

Lemma unsigned_steps_wrap_and_undo_Octet :
  let it := Enumerate_end Octet_range in
  unwrap (this_after (EnumIter_incr it)) = 0
  /\ base_eq (this_after (EnumIter_decr (this_after (EnumIter_incr it)))) it
     = true.
Proof.
  intros it.
  destruct (unsigned_steps_wrap_and_undo
              Octet it (ReverseEnumIter_of Octet 0))
    as (Hmax & _ & Hback & _).
  - reflexivity.
  - reflexivity.
  - apply in_rangeb_spec. reflexivity.
  - apply in_rangeb_spec. reflexivity.
  - split; [apply Hmax; reflexivity | exact Hback].
Defined.

(** X8. In an unsigned underlying type other than [bool] a step keeps
    apart what was apart: two iterators of one variant compare equal after
    [++], or after [--], exactly when they compared equal before. *)
Theorem unsigned_steps_preserve_distinction
  (E : Enum) (a b : EnumIter E) (c d : ReverseEnumIter E) :
  let T := underlying_type E in
  is_signed T = false ->
  is_bool T = false ->
  in_range T (unwrap a) -> in_range T (unwrap b) ->
  in_range T (unwrap c) -> in_range T (unwrap d) ->
  base_eq (this_after (EnumIter_incr a)) (this_after (EnumIter_incr b))
    = base_eq a b
  /\ base_eq (this_after (EnumIter_decr a)) (this_after (EnumIter_decr b))
    = base_eq a b
  /\ base_eq (this_after (ReverseEnumIter_incr c))
             (this_after (ReverseEnumIter_incr d))
    = base_eq c d
  /\ base_eq (this_after (ReverseEnumIter_decr c))
             (this_after (ReverseEnumIter_decr d))
    = base_eq c d.
Proof.
  intros T _ Hnb Ha Hb Hc Hd.
  assert (Hstep : forall x y k, in_range T x -> in_range T y ->
            (to_integral T (x + k) =? to_integral T (y + k)) = (x =? y)).
  { intros x y k Hx Hy.
    destruct (Z.eqb_spec x y) as [->|Hne]; [apply Z.eqb_refl|].
    apply Z.eqb_neq. intros Heq. apply Hne.
    apply (to_integral_step_injective T x y k Hnb Hx Hy Heq). }
  unfold EnumIter_incr, EnumIter_decr, ReverseEnumIter_incr,
    ReverseEnumIter_decr, wrap, base_eq.
  cbn [this_after iter_base riter_base unwrap m_inner]. fold T.
  unfold Z.sub.
  repeat split; apply Hstep; assumption.
Qed.

Lemma unsigned_steps_preserve_distinction_Octet :
  base_eq (this_after (EnumIter_incr (EnumIter_of Octet 255)))
          (this_after (EnumIter_incr (EnumIter_of Octet 0)))
  = base_eq (EnumIter_of Octet 255) (EnumIter_of Octet 0).
Proof.
  destruct (unsigned_steps_preserve_distinction Octet
              (EnumIter_of Octet 255) (EnumIter_of Octet 0)
              (ReverseEnumIter_of Octet 0) (ReverseEnumIter_of Octet 0))
    as (H & _); try (apply in_rangeb_spec; reflexivity).
  - reflexivity.
  - reflexivity.
  - exact H.
Defined.

(* ================================================================== *)
(** ** [==] as an equivalence *)

(** X9. [==] on iterators is reflexive, symmetric and transitive, and
    [!=] never holds between an iterator and itself. *)
Theorem equality_is_equivalence
  (E : Enum) (a b c : EnumIterBase E) :
  base_eq a a = true
  /\ base_ne a a = false
  /\ base_eq a b = base_eq b a
  /\ (base_eq a b = true -> base_eq b c = true -> base_eq a c = true).
Proof.
  unfold base_eq, base_ne.
  split; [apply Z.eqb_refl|].
  split; [rewrite Z.eqb_refl; reflexivity|].
  split; [apply Z.eqb_sym|].
  rewrite !Z.eqb_eq. congruence.
Qed.

Lemma equality_is_equivalence_Fruit :
  base_eq (Enumerate_begin Fruit_range) (Enumerate_begin Fruit_range) = true.
Proof.
  destruct (equality_is_equivalence Fruit
              (Enumerate_begin Fruit_range) (Enumerate_begin Fruit_range)
              (Enumerate_begin Fruit_range)) as (_ & _ & _ & Htrans).
  apply Htrans; reflexivity.
Defined.

(* ================================================================== *)
(** ** The usage example: [name] and [main] *)

(** X10. [name] returns for exactly the items of the range of [Fruit]:
    it throws [std::out_of_range("Fruit")] for every other value, the
    sentinel [END] included. *)
Theorem name_returns_iff_in_range (f : Z) :
  ((exists text, name f = Returns text) <-> BEGIN Fruit <= f < END Fruit)
  /\ (name f = Throws (out_of_range "Fruit") <-> ~ BEGIN Fruit <= f < END Fruit)
  /\ name (END Fruit) = Throws (out_of_range "Fruit").
Proof.
  unfold name, Apple, Orange, Pear. simpl.
  destruct (Z.eqb_spec f 0) as [->|H0].
  { split; [|split]; [split; [lia | eexists; reflexivity]
                     | split; [discriminate | lia] | reflexivity]. }
  destruct (Z.eqb_spec f 1) as [->|H1].
  { split; [|split]; [split; [lia | eexists; reflexivity]
                     | split; [discriminate | lia] | reflexivity]. }
  destruct (Z.eqb_spec f 2) as [->|H2].
  { split; [|split]; [split; [lia | eexists; reflexivity]
                     | split; [discriminate | lia] | reflexivity]. }
  split; [|split].
  - split; [intros [text H]; discriminate H | lia].
  - split; [lia | reflexivity].
  - reflexivity.
Qed.

Section LoopBody.

Context {I : Type} `{Iterator I} {State : Type}.

Variable body : Z -> State -> State * option exception.

Lemma for_each_run_body (fuel : nat) : forall (it last : I) (s : State) items,
  for_loop fuel it last = Some items ->
  for_each fuel it last body s = Some (run_body body items s).
Proof.
  induction fuel as [|fuel IH]; intros it last s items;
    cbn [for_loop for_each]; destruct (not_equal it last).
  - discriminate.
  - intros [= <-]. reflexivity.
  - destruct (for_loop fuel (this_after (pre_increment it)) last)
      as [rest|] eqn:Hrest; [|discriminate].
    intros [= <-]. cbn [run_body].
    destruct (body (deref it) s) as [s' [e|]]; [reflexivity|].
    apply IH. exact Hrest.
  - intros [= <-]. reflexivity.
Qed.

End LoopBody.

(** X11. A loop with a body does what the body does on the items of the
    traversal, one after the other in the order of the traversal and up to
    the first exception: whenever the loop without a body ends having
    visited [items], the loop with the body ends in the state and with
    the exception that the body yields along [items]. *)
Theorem loop_body_runs_over_visited_items
  (E : Enum) (range : Enumerate E) (fuel : nat) (State : Type)
  (body : Z -> State -> State * option exception) (s : State) :
  (forall items, forward_traversal range fuel = Some items ->
     for_each fuel (Enumerate_begin range) (Enumerate_end range) body s
     = Some (run_body body items s))
  /\ (forall items, reverse_traversal range fuel = Some items ->
     for_each fuel (Enumerate_rbegin range) (Enumerate_rend range) body s
     = Some (run_body body items s)).
Proof.
  split; intros items Hitems; apply for_each_run_body; exact Hitems.
Qed.

Lemma loop_body_runs_over_visited_items_Fruit :
  for_each 3 (Enumerate_begin Fruit_range) (Enumerate_end Fruit_range)
    print_name []
  = Some (run_body print_name [0; 1; 2] [])
  /\ for_each 3 (Enumerate_rbegin Fruit_range) (Enumerate_rend Fruit_range)
       print_name []
     = Some (run_body print_name [2; 1; 0] []).
Proof.
  destruct (loop_body_runs_over_visited_items
              Fruit Fruit_range 3 (list string) print_name []) as [Hf Hr].
  split; [apply Hf | apply Hr]; reflexivity.
Defined.

(** X12. [main] ends normally with status [0] after writing the names of
    the three fruits in ascending and then in descending order; [name]
    never throws in it.  Each loop needs three iterations and [main] has
    not ended while one of them is given fewer. *)
Theorem main_prints_forward_then_backward (fuel : nat) :
  ((3 <= fuel)%nat ->
     main fuel
     = Some (["Apple"; "Orange"; "Pear"; "Pear"; "Orange"; "Apple"]%string,
             Returns 0))
  /\ ((fuel < 3)%nat -> main fuel = None).
Proof.
  split.
  - intros Hfuel. unfold main.
    rewrite (for_each_run_body print_name fuel _ _ [] [0; 1; 2])
      by (apply (forward_traversal_result Fruit Fruit_range fuel); exact Hfuel).
    cbn [run_body print_name name]. simpl.
    rewrite (for_each_run_body print_name fuel _ _ _ [2; 1; 0])
      by (apply (reverse_traversal_result Fruit Fruit_range fuel); exact Hfuel).
    reflexivity.
  - intros Hfuel.
    destruct fuel as [|[|[|fuel]]]; [reflexivity .. | lia].
Qed.

Lemma main_prints_forward_then_backward_3 :
  main 3
  = Some (["Apple"; "Orange"; "Pear"; "Pear"; "Orange"; "Apple"]%string,
          Returns 0)
  /\ main 2 = None.
Proof.
  split.
  - apply (main_prints_forward_then_backward 3). apply le_n.
  - apply (main_prints_forward_then_backward 2). apply le_n.
Defined.

(* ================================================================== *)
(** ** Steps in [bool] and steps that are undefined *)

(** X13. With the underlying type [bool] the steps do not wrap around:
    [++] of the forwards iterator and [--] of the backwards one leave
    [true] whatever the item was, the other two steps turn [false] into
    [true] and [true] into [false], and from [true] the forwards [++]
    followed by [--] arrives at [false]. *)
Theorem bool_steps_saturate
  (E : Enum) (it : EnumIter E) (rit : ReverseEnumIter E) :
  let T := underlying_type E in
  is_bool T = true ->
  in_range T (unwrap it) ->
  in_range T (unwrap rit) ->
  unwrap (this_after (EnumIter_incr it)) = 1
  /\ unwrap (this_after (EnumIter_decr it)) = 1 - unwrap it
  /\ unwrap (this_after (ReverseEnumIter_incr rit)) = 1 - unwrap rit
  /\ unwrap (this_after (ReverseEnumIter_decr rit)) = 1
  /\ (unwrap it = 1 ->
      base_eq (this_after (EnumIter_decr (this_after (EnumIter_incr it)))) it
      = false).
Proof.
  intros T Hb Hit Hrit.
  destruct (is_bool_range T Hb) as [Hmin Hmax].
  unfold in_range in Hit, Hrit. rewrite Hmin, Hmax in Hit, Hrit.
  unfold EnumIter_incr, EnumIter_decr, ReverseEnumIter_incr,
    ReverseEnumIter_decr, wrap, base_eq, to_integral.
  cbn [this_after iter_base riter_base unwrap m_inner]. fold T.
  rewrite Hb.
  unfold unwrap in *.
  split; [destruct (Z.eqb_spec (m_inner it + 1) 0); lia|].
  split; [destruct (Z.eqb_spec (m_inner it - 1) 0); lia|].
  split; [destruct (Z.eqb_spec (m_inner rit - 1) 0); lia|].
  split; [destruct (Z.eqb_spec (m_inner rit + 1) 0); lia|].
  intros H1. rewrite H1. reflexivity.
Qed.

Lemma bool_steps_saturate_Flag :
  unwrap (this_after (EnumIter_incr (Enumerate_end Flag_range))) = 1
  /\ base_eq
       (this_after (EnumIter_decr
                      (this_after (EnumIter_incr (Enumerate_end Flag_range)))))
       (Enumerate_end Flag_range)
     = false.
Proof.
  destruct (bool_steps_saturate Flag (Enumerate_end Flag_range)
              (ReverseEnumIter_of Flag 0)) as (Hi & _ & _ & _ & Hback).
  - reflexivity.
  - apply in_rangeb_spec. reflexivity.
  - apply in_rangeb_spec. reflexivity.
  - split; [exact Hi | apply Hback; reflexivity].
Defined.


